(** * NYU TinyLev driver for the Teensy 4.0: a shallow embedding

    The repository holds two near-identical Arduino sketches that drive the
    two transducer arrays of a TinyLev acoustic levitator through an L298N
    dual H-bridge:

    - [src/nyutinylev_simple.ino]  (module [Simple] below), and
    - [src/unnamed/part_000]       (module [Part000] below).

    Both sketches talk to the hardware in two ways: through calls into the
    Arduino/Teensy core ([analogWrite], [analogWriteFrequency],
    [analogWriteRes], [digitalWrite], [pinMode], [Serial], [delay],
    [millis]) and through direct read-modify-write accesses to the FlexPWM
    output control registers ([FLEXPWM4_SM2OCTRL |= INVERTB]).

    The sketches are translated statement by statement into a small state
    monad over a record that holds the registers the sketches name, the
    values last handed to each core call, the two global variables of the
    sketch and the trace of every hardware access in program order. *)

From Stdlib Require Import ZArith String List Bool Lia.
From Stdlib Require Import Floats.SpecFloat.
From stdpp Require Import base decidable option functions gmap.

Import ListNotations.
Local Open Scope Z_scope.

(** ** Machine integers

    The Teensy 4.0 is a 32-bit ARM Cortex-M7: [int] and [long] are 32 bits
    wide, [uint16_t] is 16 bits wide.  Values are kept in [Z] and every
    conversion to an unsigned type is written out as a reduction. *)

Definition uint16 (x : Z) : Z := x mod 2 ^ 16.
Definition uint32 (x : Z) : Z := x mod 2 ^ 32.

(** C's logical negation on an [int]: [!x] is 1 when [x] is 0, else 0. *)
Definition lnot (x : Z) : Z := if x =? 0 then 1 else 0.

(** ** Single-precision frequencies

    The frequency arguments are C [float]s.  They are kept as IEEE-754
    values of [SpecFloat]; a well-formed binary32 value satisfies
    [valid_binary 24 128].  The sketches never compute with a frequency,
    they only pass it on. *)

Abbreviation float := spec_float (only parsing).

Definition is_float (f : float) : bool := valid_binary 24 128 f.

(** [f > 0] on floats (false on a NaN, as in C). *)
Definition float_pos (f : float) : bool := SFltb (S754_zero false) f.

(** ** FlexPWM output control registers

    The eight registers the sketches name.  Each is a 16-bit
    memory-mapped register. *)

Inductive reg : Set :=
  | FLEXPWM2_SM0OCTRL | FLEXPWM2_SM1OCTRL | FLEXPWM2_SM2OCTRL | FLEXPWM2_SM3OCTRL
  | FLEXPWM4_SM0OCTRL | FLEXPWM4_SM1OCTRL | FLEXPWM4_SM2OCTRL | FLEXPWM4_SM3OCTRL.

#[global] Instance reg_eq_dec : EqDecision reg.
Proof. solve_decision. Defined.

(** ** Hardware accesses, in program order *)

Inductive event : Type :=
  | EvPinMode (pin mode : Z)
  | EvSerialBegin (baud : Z)
  | EvDelay (ms : Z)
  | EvPrint (text : string)
  | EvPrintln (text : string)
  | EvPrintf (fmt : string) (arg : Z)
  | EvAnalogWriteRes (bits : Z)
  | EvAnalogWriteFrequency (pin : Z) (frq : float)
  | EvAnalogWrite (pin : Z) (val : Z)
  | EvStore (r : reg) (val : Z)
  | EvDigitalWrite (pin : Z) (val : Z).

(** ** Program and hardware state *)

Record state : Type := mkState {
  (** contents of the FlexPWM output control registers *)
  octrl : reg -> Z;
  (** resolution last passed to [analogWriteRes]; [None] until the sketch
      has configured one *)
  analog_write_res : option Z;
  (** frequency last passed to [analogWriteFrequency], per pin *)
  pwm_freq : gmap Z float;
  (** duty value last passed to [analogWrite], per pin *)
  pwm_duty : gmap Z Z;
  (** the sketch's global [unsigned long lastBlink] *)
  lastBlink : Z;
  (** the sketch's global [int ledState] *)
  ledState : Z;
  (** every hardware access so far, oldest first *)
  trace : list event
}.

(** ** The state monad the sketches run in *)

Definition io (A : Type) : Type := state -> A * state.

#[global] Instance io_ret : MRet io := fun A (a : A) s => (a, s).
#[global] Instance io_bind : MBind io := fun A B (k : A -> io B) (m : io A) s =>
  let (a, s') := m s in k a s'.

(** The state a computation leaves behind. *)
Definition exec {A} (m : io A) (s : state) : state := snd (m s).

Definition emit (e : event) : io unit := fun s =>
  (tt, mkState (octrl s) (analog_write_res s) (pwm_freq s) (pwm_duty s)
               (lastBlink s) (ledState s) (trace s ++ [e])).

(** ** The Arduino/Teensy core, as seen from the sketch

    The core library is not part of the repository.  Each entry point is
    modelled as the port it is to the sketch: the call is appended to the
    trace and the value it was handed becomes the current setting of the
    pin (or of the global resolution). *)

Definition LOW : Z := 0.
Definition HIGH : Z := 1.
Definition OUTPUT : Z := 1.
Definition LED_BUILTIN : Z := 13.

Definition pinMode (pin mode : Z) : io unit := emit (EvPinMode pin mode).
Definition Serial_begin (baud : Z) : io unit := emit (EvSerialBegin baud).
Definition delay (ms : Z) : io unit := emit (EvDelay ms).
Definition Serial_print (text : string) : io unit := emit (EvPrint text).
Definition Serial_println (text : string) : io unit := emit (EvPrintln text).
Definition Serial_printf (fmt : string) (arg : Z) : io unit :=
  emit (EvPrintf fmt arg).

Definition analogWriteRes (bits : Z) : io unit := fun s =>
  emit (EvAnalogWriteRes bits)
    (mkState (octrl s) (Some bits) (pwm_freq s) (pwm_duty s)
             (lastBlink s) (ledState s) (trace s)).

Definition analogWriteFrequency (pin : Z) (frq : float) : io unit := fun s =>
  emit (EvAnalogWriteFrequency pin frq)
    (mkState (octrl s) (analog_write_res s) (<[pin := frq]> (pwm_freq s))
             (pwm_duty s) (lastBlink s) (ledState s) (trace s)).

Definition analogWrite (pin : Z) (val : Z) : io unit := fun s =>
  emit (EvAnalogWrite pin val)
    (mkState (octrl s) (analog_write_res s) (pwm_freq s)
             (<[pin := val]> (pwm_duty s)) (lastBlink s) (ledState s) (trace s)).

Definition digitalWrite (pin : Z) (val : Z) : io unit :=
  emit (EvDigitalWrite pin val).

(** ** Register and global-variable accesses *)

Definition load (r : reg) : io Z := fun s => (octrl s r, s).

(** A store to a 16-bit register keeps the low 16 bits of the value. *)
Definition store (r : reg) (v : Z) : io unit := fun s =>
  emit (EvStore r (uint16 v))
    (mkState (<[r := uint16 v]> (octrl s)) (analog_write_res s) (pwm_freq s)
             (pwm_duty s) (lastBlink s) (ledState s) (trace s)).

(** [r |= mask;] *)
Definition or_assign (r : reg) (mask : Z) : io unit :=
  v ← load r; store r (Z.lor v mask).

Definition get_lastBlink : io Z := fun s => (lastBlink s, s).
Definition get_ledState : io Z := fun s => (ledState s, s).

Definition set_lastBlink (v : Z) : io unit := fun s =>
  (tt, mkState (octrl s) (analog_write_res s) (pwm_freq s) (pwm_duty s)
               v (ledState s) (trace s)).

Definition set_ledState (v : Z) : io unit := fun s =>
  (tt, mkState (octrl s) (analog_write_res s) (pwm_freq s) (pwm_duty s)
               (lastBlink s) v (trace s)).

(** ** The calls a sketch offers

    [CallBlink] and [CallLoop] carry the value [millis()] returns during
    the call; the clock is an input of the program. *)

Inductive call : Type :=
  | CallSetFreq (frq : float)
  | CallSetAmp (amp : Z)
  | CallShow
  | CallBlink (millis : Z)
  | CallSetup
  | CallLoop (millis : Z).

(** * [src/nyutinylev_simple.ino] *)

Module Simple.

Definition FREQUENCY : float := S754_finite false 10240000 (-8).
Definition PWMRES : Z := 8.
Definition PWMSTEPS : Z := 256.
Definition INVERTB : Z := 0x0200.

Definition upperA : Z := 2.
Definition upperB : Z := 3.
Definition lowerA : Z := 6.
Definition lowerB : Z := 9.

Definition ledPin : Z := LED_BUILTIN.
Definition blinkDuration : Z := 500.

(** The state at reset: [lastBlink = 0], [ledState = LOW], nothing
    configured yet, and whatever the output control registers hold. *)
Definition boot (regs : reg -> Z) : state :=
  mkState regs None ∅ ∅ 0 LOW [].

(** [void setAmp(uint16_t amp)] *)
Definition setAmp (amp : Z) : io unit :=
  let amp := uint16 amp in
  Serial_printf "\namplitude: %u " amp;;
  analogWrite upperA amp;;
  analogWrite upperB amp;;
  analogWrite lowerA amp;;
  analogWrite lowerB amp;;
  or_assign FLEXPWM4_SM2OCTRL INVERTB;;
  or_assign FLEXPWM2_SM2OCTRL INVERTB.

(** [void setFreq(float frq)] *)
Definition setFreq (frq : float) : io unit :=
  analogWriteFrequency upperA frq;;
  analogWriteFrequency upperB frq;;
  analogWriteFrequency lowerA frq;;
  analogWriteFrequency lowerB frq.

(** [void showFlexPWMInit(void)] *)
Definition showFlexPWMInit : io unit :=
  Serial_println "FlexPWM2:";;
  v ← load FLEXPWM2_SM0OCTRL; Serial_printf "  SM0OCTL: %04X " v;;
  v ← load FLEXPWM2_SM1OCTRL; Serial_printf "  SM1OCTL: %04X " v;;
  v ← load FLEXPWM2_SM2OCTRL; Serial_printf "  SM2OCTL: %04X " v;;
  v ← load FLEXPWM2_SM3OCTRL; Serial_printf "  SM3OCTL: %04X\n" v;;
  Serial_println "FlexPWM4:";;
  v ← load FLEXPWM4_SM0OCTRL; Serial_printf "  SM0OCTL: %04X " v;;
  v ← load FLEXPWM4_SM1OCTRL; Serial_printf "  SM1OCTL: %04X " v;;
  v ← load FLEXPWM4_SM2OCTRL; Serial_printf "  SM2OCTL: %04X " v;;
  v ← load FLEXPWM4_SM3OCTRL; Serial_printf "  SM3OCTL: %04X\n" v.

(** [void blink(void)]; [millis] is what [millis()] returns. *)
Definition blink (millis : Z) : io unit :=
  let getTime := uint32 millis in
  last ← get_lastBlink;
  if uint32 (getTime - last) >=? uint32 blinkDuration then
    set_lastBlink getTime;;
    led ← get_ledState;
    set_ledState (lnot led);;
    led ← get_ledState;
    digitalWrite ledPin led
  else mret tt.

(** [void setup(void)].  Line 111 of the file reads
    [s     howFlexPWMInit();]: it is taken as the call [showFlexPWMInit();]
    that the sibling sketch makes at the same place. *)
Definition setup : io unit :=
  pinMode ledPin OUTPUT;;
  Serial_begin 9600;;
  delay 100;;
  Serial_print "\nNYU TinyLev Driver";;
  analogWriteRes PWMRES;;
  Serial_print "\nbefore initialization:";;
  showFlexPWMInit;;
  setFreq FREQUENCY;;
  setAmp (PWMSTEPS ÷ 2 - 1);;
  Serial_print "\nafter initialization:";;
  showFlexPWMInit.

(** [void loop()] *)
Definition loop (millis : Z) : io unit := blink millis.

Definition run (c : call) : io unit :=
  match c with
  | CallSetFreq frq => setFreq frq
  | CallSetAmp amp => setAmp amp
  | CallShow => showFlexPWMInit
  | CallBlink millis => blink millis
  | CallSetup => setup
  | CallLoop millis => loop millis
  end.

End Simple.

(** * [src/unnamed/part_000] *)

Module Part000.

Definition FREQUENCY : float := S754_finite false 10240000 (-8).
Definition PWMRES : Z := 8.
Definition PWMSTEPS : Z := 256.
Definition INVERTB : Z := 0x0200.

Definition upperA : Z := 2.
Definition upperB : Z := 3.
Definition lowerA : Z := 6.
Definition lowerB : Z := 9.

Definition ledPin : Z := LED_BUILTIN.
Definition blinkDuration : Z := 500.

Definition boot (regs : reg -> Z) : state :=
  mkState regs None ∅ ∅ 0 LOW [].

(** [void setAmplitude(uint16_t amp)] *)
Definition setAmplitude (amp : Z) : io unit :=
  let amp := uint16 amp in
  Serial_printf "\namplitude: %u " amp;;
  analogWrite upperA amp;;
  analogWrite upperB amp;;
  analogWrite lowerA amp;;
  analogWrite lowerB amp;;
  or_assign FLEXPWM4_SM2OCTRL INVERTB;;
  or_assign FLEXPWM2_SM2OCTRL INVERTB.

(** [void setFrequency(float frq)] *)
Definition setFrequency (frq : float) : io unit :=
  analogWriteFrequency upperA frq;;
  analogWriteFrequency upperB frq;;
  analogWriteFrequency lowerA frq;;
  analogWriteFrequency lowerB frq.

(** [void ShowFlexPWMInit(void)] *)
Definition ShowFlexPWMInit : io unit :=
  Serial_println "FlexPWM2:";;
  v ← load FLEXPWM2_SM0OCTRL; Serial_printf "  SM0OCTL: %04X " v;;
  v ← load FLEXPWM2_SM1OCTRL; Serial_printf "  SM1OCTL: %04X " v;;
  v ← load FLEXPWM2_SM2OCTRL; Serial_printf "  SM2OCTL: %04X " v;;
  v ← load FLEXPWM2_SM3OCTRL; Serial_printf "  SM3OCTL: %04X\n" v;;
  Serial_println "FlexPWM4:";;
  v ← load FLEXPWM4_SM0OCTRL; Serial_printf "  SM0OCTL: %04X " v;;
  v ← load FLEXPWM4_SM1OCTRL; Serial_printf "  SM1OCTL: %04X " v;;
  v ← load FLEXPWM4_SM2OCTRL; Serial_printf "  SM2OCTL: %04X " v;;
  v ← load FLEXPWM4_SM3OCTRL; Serial_printf "  SM3OCTL: %04X\n" v.

(** [void blink(void)]; [millis] is what [millis()] returns. *)
Definition blink (millis : Z) : io unit :=
  let time := uint32 millis in
  last ← get_lastBlink;
  if uint32 (time - last) >=? uint32 blinkDuration then
    set_lastBlink time;;
    led ← get_ledState;
    set_ledState (lnot led);;
    led ← get_ledState;
    digitalWrite ledPin led
  else mret tt.

(** [void setup()] *)
Definition setup : io unit :=
  pinMode ledPin OUTPUT;;
  Serial_begin 9600;;
  delay 100;;
  Serial_print "\nNYU TinyLev Driver";;
  analogWriteRes PWMRES;;
  Serial_print "\nbefore initialization:";;
  ShowFlexPWMInit;;
  setFrequency FREQUENCY;;
  setAmplitude (PWMSTEPS ÷ 2 - 1);;
  Serial_print "\nafter initialization:";;
  ShowFlexPWMInit.

(** [void loop()] *)
Definition loop (millis : Z) : io unit := blink millis.

Definition run (c : call) : io unit :=
  match c with
  | CallSetFreq frq => setFrequency frq
  | CallSetAmp amp => setAmplitude amp
  | CallShow => ShowFlexPWMInit
  | CallBlink millis => blink millis
  | CallSetup => setup
  | CallLoop millis => loop millis
  end.

End Part000.

(** ** The two sketches side by side *)

Inductive sketch : Set := nyutinylev_simple | part_000.

Definition run (k : sketch) : call -> io unit :=
  match k with
  | nyutinylev_simple => Simple.run
  | part_000 => Part000.run
  end.

(** ** States a sketch can be in

    A run starts from the reset state, whose registers hold any 16-bit
    values, and proceeds by calls of the sketch's functions. *)

Definition regs16 (regs : reg -> Z) : Prop := forall r, 0 <= regs r < 2 ^ 16.

Inductive reachable (run : call -> io unit) : state -> Prop :=
  | reach_boot regs : regs16 regs -> reachable run (Simple.boot regs)
  | reach_call s c : reachable run s -> reachable run (exec (run c) s).

(** Running a list of calls, first call first. *)
Fixpoint run_calls (run : call -> io unit) (cs : list call) (s : state) : state :=
  match cs with
  | [] => s
  | c :: cs => run_calls run cs (exec (run c) s)
  end.


(** ** Vocabulary of the properties *)

(** All four output channels carry the duty value [d]. *)
Definition driven_at (d : Z) (s : state) : Prop :=
  pwm_duty s !! Simple.upperA = Some d /\ pwm_duty s !! Simple.upperB = Some d /\
  pwm_duty s !! Simple.lowerA = Some d /\ pwm_duty s !! Simple.lowerB = Some d.

(** All four output channels carry the frequency [f]. *)
Definition tuned_to (f : float) (s : state) : Prop :=
  pwm_freq s !! Simple.upperA = Some f /\ pwm_freq s !! Simple.upperB = Some f /\
  pwm_freq s !! Simple.lowerA = Some f /\ pwm_freq s !! Simple.lowerB = Some f.

(** The upper array (pins [upperA], [upperB]) and the lower array (pins
    [lowerA], [lowerB]) report the same frequency. *)
Definition in_tune (s : state) : Prop :=
  pwm_freq s !! Simple.upperA = pwm_freq s !! Simple.lowerA /\
  pwm_freq s !! Simple.upperB = pwm_freq s !! Simple.lowerB /\
  pwm_freq s !! Simple.upperA = pwm_freq s !! Simple.upperB.

(** The channel-B inversion bit is set in the register value [v]. *)
Definition invertb (v : Z) : bool := Z.land v Simple.INVERTB =? Simple.INVERTB.

Definition inverted (r : reg) (s : state) : Prop := invertb (octrl s r) = true.

(** The hardware accesses a computation adds to the trace. *)
Definition events_of {A} (m : io A) (s : state) : list event :=
  drop (length (trace s)) (trace (exec m s)).

Definition is_res (e : event) : bool :=
  match e with EvAnalogWriteRes _ => true | _ => false end.
Definition is_freq (e : event) : bool :=
  match e with EvAnalogWriteFrequency _ _ => true | _ => false end.
Definition is_duty (e : event) : bool :=
  match e with EvAnalogWrite _ _ => true | _ => false end.
(** A register store that leaves the inversion bit set. *)
Definition is_invert (e : event) : bool :=
  match e with EvStore _ v => invertb v | _ => false end.
Definition is_serial (e : event) : bool :=
  match e with EvPrint _ | EvPrintln _ | EvPrintf _ _ => true | _ => false end.

(** Every [P] access of [l] comes strictly before every [Q] access. *)
Definition all_before (P Q : event -> bool) (l : list event) : Prop :=
  forall (i j : nat) (e1 e2 : event),
    l !! i = Some e1 -> l !! j = Some e2 ->
    P e1 = true -> Q e2 = true -> (i < j)%nat.

(** The same, as a check that runs: behind a [Q] access (itself included)
    there is no [P] access. *)
Fixpoint all_beforeb (P Q : event -> bool) (l : list event) : bool :=
  match l with
  | [] => true
  | e :: l' =>
      (if Q e then forallb (fun x => negb (P x)) l else true)
      && all_beforeb P Q l'
  end.

(** The values a stretch of serial output prints with [printf]. *)
Fixpoint printed (l : list event) : list Z :=
  match l with
  | [] => []
  | EvPrintf _ v :: l' => v :: printed l'
  | _ :: l' => printed l'
  end.

(** The eight registers in the order the dump prints them. *)
Definition dump_order : list reg :=
  [FLEXPWM2_SM0OCTRL; FLEXPWM2_SM1OCTRL; FLEXPWM2_SM2OCTRL; FLEXPWM2_SM3OCTRL;
   FLEXPWM4_SM0OCTRL; FLEXPWM4_SM1OCTRL; FLEXPWM4_SM2OCTRL; FLEXPWM4_SM3OCTRL].

(** The value [r |= INVERTB] leaves in [r]. *)
Definition or_INVERTB (v : Z) : Z := uint16 (Z.lor v Simple.INVERTB).

(** The lines the dump writes when the registers hold [regs]. *)
Definition dump_lines (regs : reg -> Z) : list event :=
  [EvPrintln "FlexPWM2:";
   EvPrintf "  SM0OCTL: %04X " (regs FLEXPWM2_SM0OCTRL);
   EvPrintf "  SM1OCTL: %04X " (regs FLEXPWM2_SM1OCTRL);
   EvPrintf "  SM2OCTL: %04X " (regs FLEXPWM2_SM2OCTRL);
   EvPrintf "  SM3OCTL: %04X\n" (regs FLEXPWM2_SM3OCTRL);
   EvPrintln "FlexPWM4:";
   EvPrintf "  SM0OCTL: %04X " (regs FLEXPWM4_SM0OCTRL);
   EvPrintf "  SM1OCTL: %04X " (regs FLEXPWM4_SM1OCTRL);
   EvPrintf "  SM2OCTL: %04X " (regs FLEXPWM4_SM2OCTRL);
   EvPrintf "  SM3OCTL: %04X\n" (regs FLEXPWM4_SM3OCTRL)].

(** The hardware accesses of [setup], started with registers [regs]. *)
Definition setup_events (regs : reg -> Z) : list event :=
  [EvPinMode Simple.ledPin OUTPUT;
   EvSerialBegin 9600;
   EvDelay 100;
   EvPrint "\nNYU TinyLev Driver";
   EvAnalogWriteRes Simple.PWMRES;
   EvPrint "\nbefore initialization:"]
  ++ dump_lines regs
  ++ [EvAnalogWriteFrequency Simple.upperA Simple.FREQUENCY;
      EvAnalogWriteFrequency Simple.upperB Simple.FREQUENCY;
      EvAnalogWriteFrequency Simple.lowerA Simple.FREQUENCY;
      EvAnalogWriteFrequency Simple.lowerB Simple.FREQUENCY;
      EvPrintf "\namplitude: %u " 127;
      EvAnalogWrite Simple.upperA 127;
      EvAnalogWrite Simple.upperB 127;
      EvAnalogWrite Simple.lowerA 127;
      EvAnalogWrite Simple.lowerB 127;
      EvStore FLEXPWM4_SM2OCTRL (or_INVERTB (regs FLEXPWM4_SM2OCTRL));
      EvStore FLEXPWM2_SM2OCTRL (or_INVERTB (regs FLEXPWM2_SM2OCTRL));
      EvPrint "\nafter initialization:"]
  ++ dump_lines
       (<[FLEXPWM2_SM2OCTRL := or_INVERTB (regs FLEXPWM2_SM2OCTRL)]>
          (<[FLEXPWM4_SM2OCTRL := or_INVERTB (regs FLEXPWM4_SM2OCTRL)]> regs)).

Definition is_store (e : event) : bool :=
  match e with EvStore _ _ => true | _ => false end.

(** The order of the hardware writes in a stretch of the trace: the
    resolution is written, and written before every duty write; every
    frequency write comes before every duty write; every duty write comes
    before every store that sets the inversion bit. *)
Definition write_order (evs : list event) : Prop :=
  (exists i : nat, evs !! i = Some (EvAnalogWriteRes Simple.PWMRES)) /\
  all_before is_res is_duty evs /\
  all_before is_freq is_duty evs /\
  all_before is_duty is_invert evs.

(** ** Vocabulary of the further properties *)

(** How the Arduino runtime drives a sketch: [setup] once, then [loop]
    again and again; [ts] lists what [millis()] returns in the successive
    iterations. *)
Definition sketch_calls (ts : list Z) : list call :=
  CallSetup :: map CallLoop ts.

(** The calls that write duty values and store to control registers. *)
Definition writes_duty (c : call) : bool :=
  match c with CallSetAmp _ | CallSetup => true | _ => false end.

(** The level last written to the LED pin along a trace, if any. *)
Definition led_step (level : option Z) (e : event) : option Z :=
  match e with
  | EvDigitalWrite pin v => if pin =? Simple.ledPin then Some v else level
  | _ => level
  end.

Definition led_level (l : list event) : option Z := fold_left led_step l None.

(** The heartbeat variables are well formed: [ledState] is [LOW] or
    [HIGH], [lastBlink] is a 32-bit value, and the LED pin, once written,
    shows [ledState]; until then [ledState] is [LOW]. *)
Definition heartbeat_ok (s : state) : Prop :=
  (ledState s = LOW \/ ledState s = HIGH)
  /\ 0 <= lastBlink s < 2 ^ 32
  /\ match led_level (trace s) with
     | Some v => ledState s = v
     | None => ledState s = LOW
     end.

(** ** Proof automation *)

(** [unfold_sketch] exposes the bodies of the functions of both sketches. *)
Ltac unfold_sketch :=
  cbv [Part000.run Part000.setAmplitude Part000.setFrequency
       Part000.ShowFlexPWMInit Part000.blink Part000.setup Part000.loop
       Simple.run Simple.setAmp Simple.setFreq Simple.showFlexPWMInit
       Simple.blink Simple.setup Simple.loop].

(** [run_io] runs a sketch function on a state whose fields are named. *)
Ltac run_io :=
  cbv [exec mbind io_bind mret io_ret
       Simple.setAmp Simple.setFreq Simple.showFlexPWMInit Simple.blink
       Simple.setup Simple.loop Simple.run
       pinMode Serial_begin delay Serial_print Serial_println Serial_printf
       analogWriteRes analogWriteFrequency analogWrite digitalWrite
       load store or_assign get_lastBlink get_ledState set_lastBlink
       set_ledState emit fst snd
       octrl analog_write_res pwm_freq pwm_duty lastBlink ledState trace];
  rewrite <- ?app_assoc; cbn [app];
  repeat (rewrite fn_lookup_insert
          || rewrite fn_lookup_insert_ne by discriminate).

(** * Proofs *)

(** ** The two sketches are the same program *)

Lemma Part000_constants :
  Part000.FREQUENCY = Simple.FREQUENCY /\ Part000.PWMRES = Simple.PWMRES
  /\ Part000.PWMSTEPS = Simple.PWMSTEPS /\ Part000.INVERTB = Simple.INVERTB
  /\ Part000.upperA = Simple.upperA /\ Part000.upperB = Simple.upperB
  /\ Part000.lowerA = Simple.lowerA /\ Part000.lowerB = Simple.lowerB
  /\ Part000.ledPin = Simple.ledPin
  /\ Part000.blinkDuration = Simple.blinkDuration
  /\ Part000.boot = Simple.boot.
Proof. repeat split. Qed.

Lemma Part000_run_eq c : Part000.run c = Simple.run c.
Proof. destruct c; unfold_sketch; reflexivity. Qed.

Lemma setAmplitude_eq amp : Part000.setAmplitude amp = Simple.setAmp amp.
Proof. unfold_sketch; reflexivity. Qed.

Lemma setFrequency_eq frq : Part000.setFrequency frq = Simple.setFreq frq.
Proof. unfold_sketch; reflexivity. Qed.

Lemma ShowFlexPWMInit_eq : Part000.ShowFlexPWMInit = Simple.showFlexPWMInit.
Proof. unfold_sketch; reflexivity. Qed.

Lemma Part000_blink_eq millis : Part000.blink millis = Simple.blink millis.
Proof. unfold_sketch; reflexivity. Qed.

Lemma Part000_setup_eq : Part000.setup = Simple.setup.
Proof. unfold_sketch; reflexivity. Qed.

Lemma reachable_Part000 s : reachable Part000.run s <-> reachable Simple.run s.
Proof.
  split; induction 1 as [regs Hregs | s c _ IH].
  - now apply reach_boot.
  - rewrite Part000_run_eq. now apply reach_call.
  - now apply reach_boot.
  - rewrite <- Part000_run_eq. now apply reach_call.
Qed.

Lemma run_calls_Part000 cs s :
  run_calls Part000.run cs s = run_calls Simple.run cs s.
Proof.
  revert s. induction cs as [| c cs IH]; intros s; cbn [run_calls].
  - reflexivity.
  - rewrite Part000_run_eq. apply IH.
Qed.

Example FREQUENCY_is_40kHz :
  Simple.FREQUENCY = binary_normalize 24 128 40000 0 false
  /\ is_float Simple.FREQUENCY = true /\ float_pos Simple.FREQUENCY = true.
Proof. repeat split; reflexivity. Qed.

(** ** Bit-level facts about [|= INVERTB] *)

Lemma INVERTB_bit n : Z.testbit Simple.INVERTB n = (n =? 9).
Proof.
  change Simple.INVERTB with (2 ^ 9).
  destruct (Z.eqb_spec n 9) as [-> | Hn].
  - reflexivity.
  - destruct (Z.neg_nonneg_cases n).
    + now rewrite Z.testbit_neg_r.
    + rewrite Z.pow2_bits_eqb by lia.
      apply Z.eqb_neq. congruence.
Qed.

Lemma uint16_bit v n : Z.testbit (uint16 v) n = (n <? 16) && Z.testbit v n.
Proof.
  unfold uint16.
  destruct (Z.neg_nonneg_cases n).
  - rewrite !Z.testbit_neg_r by lia. now rewrite andb_false_r.
  - rewrite Z.testbit_mod_pow2 by lia. reflexivity.
Qed.

Lemma uint16_small v : 0 <= v < 2 ^ 16 -> uint16 v = v.
Proof. intros H. unfold uint16. now apply Z.mod_small. Qed.

Lemma uint16_range v : 0 <= uint16 v < 2 ^ 16.
Proof. unfold uint16. apply Z.mod_pos_bound. lia. Qed.

Lemma invertb_spec v : invertb v = Z.testbit v 9.
Proof.
  unfold invertb.
  destruct (Z.testbit v 9) eqn:Hb.
  - apply Z.eqb_eq. apply Z.bits_inj'. intros n _.
    rewrite Z.land_spec, INVERTB_bit.
    destruct (Z.eqb_spec n 9) as [-> | _]; [now rewrite Hb | apply andb_false_r].
  - apply Z.eqb_neq. intros Heq.
    assert (Z.testbit (Z.land v Simple.INVERTB) 9 = true) as Hc
      by (rewrite Heq; apply INVERTB_bit).
    rewrite Z.land_spec, Hb in Hc. discriminate.
Qed.

(** The value [r |= INVERTB] stores, bit by bit. *)
Lemma or_INVERTB_bit v n :
  Z.testbit (or_INVERTB v) n = (n <? 16) && (Z.testbit v n || (n =? 9)).
Proof. unfold or_INVERTB. now rewrite uint16_bit, Z.lor_spec, INVERTB_bit. Qed.

Lemma or_INVERTB_inverted v : invertb (or_INVERTB v) = true.
Proof. rewrite invertb_spec, or_INVERTB_bit. apply orb_true_r. Qed.

Lemma or_INVERTB_16bit v :
  0 <= v < 2 ^ 16 -> or_INVERTB v = Z.lor v Simple.INVERTB.
Proof.
  intros Hv. apply Z.bits_inj'. intros n Hn.
  rewrite or_INVERTB_bit, Z.lor_spec, INVERTB_bit.
  destruct (Z.ltb_spec n 16) as [Hlt | Hge]; [reflexivity |].
  simpl. symmetry.
  replace (n =? 9) with false by (symmetry; apply Z.eqb_neq; lia).
  rewrite orb_false_r.
  apply (Z.bits_above_log2 v n); [lia |].
  destruct (Z.eq_dec v 0) as [-> | Hnz]; [simpl; lia |].
  apply Z.log2_lt_pow2; [lia |].
  apply Z.lt_le_trans with (2 ^ 16); [lia |].
  apply Z.pow_le_mono_r; lia.
Qed.

(** ** What each function does to the state *)

Lemma or_assign_exec r s :
  exec (or_assign r Simple.INVERTB) s
  = mkState (<[r := or_INVERTB (octrl s r)]> (octrl s)) (analog_write_res s)
            (pwm_freq s) (pwm_duty s) (lastBlink s) (ledState s)
            (trace s ++ [EvStore r (or_INVERTB (octrl s r))]).
Proof. destruct s. reflexivity. Qed.

Lemma setAmp_exec amp s :
  exec (Simple.setAmp amp) s
  = mkState
      (<[FLEXPWM2_SM2OCTRL := or_INVERTB (octrl s FLEXPWM2_SM2OCTRL)]>
         (<[FLEXPWM4_SM2OCTRL := or_INVERTB (octrl s FLEXPWM4_SM2OCTRL)]>
            (octrl s)))
      (analog_write_res s)
      (pwm_freq s)
      (<[Simple.lowerB := uint16 amp]>
         (<[Simple.lowerA := uint16 amp]>
            (<[Simple.upperB := uint16 amp]>
               (<[Simple.upperA := uint16 amp]> (pwm_duty s)))))
      (lastBlink s) (ledState s)
      (trace s ++
         [EvPrintf "\namplitude: %u " (uint16 amp);
          EvAnalogWrite Simple.upperA (uint16 amp);
          EvAnalogWrite Simple.upperB (uint16 amp);
          EvAnalogWrite Simple.lowerA (uint16 amp);
          EvAnalogWrite Simple.lowerB (uint16 amp);
          EvStore FLEXPWM4_SM2OCTRL (or_INVERTB (octrl s FLEXPWM4_SM2OCTRL));
          EvStore FLEXPWM2_SM2OCTRL (or_INVERTB (octrl s FLEXPWM2_SM2OCTRL))]).
Proof. destruct s. unfold or_INVERTB. run_io. reflexivity. Qed.

Lemma setFreq_exec frq s :
  exec (Simple.setFreq frq) s
  = mkState (octrl s) (analog_write_res s)
      (<[Simple.lowerB := frq]>
         (<[Simple.lowerA := frq]>
            (<[Simple.upperB := frq]>
               (<[Simple.upperA := frq]> (pwm_freq s)))))
      (pwm_duty s) (lastBlink s) (ledState s)
      (trace s ++
         [EvAnalogWriteFrequency Simple.upperA frq;
          EvAnalogWriteFrequency Simple.upperB frq;
          EvAnalogWriteFrequency Simple.lowerA frq;
          EvAnalogWriteFrequency Simple.lowerB frq]).
Proof. destruct s. run_io. reflexivity. Qed.

Lemma showFlexPWMInit_exec s :
  exec Simple.showFlexPWMInit s
  = mkState (octrl s) (analog_write_res s) (pwm_freq s) (pwm_duty s)
            (lastBlink s) (ledState s) (trace s ++ dump_lines (octrl s)).
Proof. destruct s. unfold dump_lines. run_io. reflexivity. Qed.

(** [blink] when the interval has not elapsed. *)
Lemma blink_exec_early millis s :
  uint32 (uint32 millis - lastBlink s) < uint32 Simple.blinkDuration ->
  exec (Simple.blink millis) s = s.
Proof.
  intros Hlt. destruct s as [o r f d lb ls tr]. cbn [lastBlink] in Hlt. run_io.
  destruct (Z.geb_spec (uint32 (uint32 millis - lb)) (uint32 Simple.blinkDuration));
    [lia | reflexivity].
Qed.

(** [blink] once the interval has elapsed. *)
Lemma blink_exec_due millis s :
  uint32 Simple.blinkDuration <= uint32 (uint32 millis - lastBlink s) ->
  exec (Simple.blink millis) s
  = mkState (octrl s) (analog_write_res s) (pwm_freq s) (pwm_duty s)
            (uint32 millis) (lnot (ledState s))
            (trace s ++ [EvDigitalWrite Simple.ledPin (lnot (ledState s))]).
Proof.
  intros Hge. destruct s as [o r f d lb ls tr]. cbn [lastBlink] in Hge. run_io.
  destruct (Z.geb_spec (uint32 (uint32 millis - lb)) (uint32 Simple.blinkDuration));
    [reflexivity | lia].
Qed.

Lemma setup_exec s :
  exec Simple.setup s
  = mkState
      (<[FLEXPWM2_SM2OCTRL := or_INVERTB (octrl s FLEXPWM2_SM2OCTRL)]>
         (<[FLEXPWM4_SM2OCTRL := or_INVERTB (octrl s FLEXPWM4_SM2OCTRL)]>
            (octrl s)))
      (Some Simple.PWMRES)
      (<[Simple.lowerB := Simple.FREQUENCY]>
         (<[Simple.lowerA := Simple.FREQUENCY]>
            (<[Simple.upperB := Simple.FREQUENCY]>
               (<[Simple.upperA := Simple.FREQUENCY]> (pwm_freq s)))))
      (<[Simple.lowerB := 127]>
         (<[Simple.lowerA := 127]>
            (<[Simple.upperB := 127]>
               (<[Simple.upperA := 127]> (pwm_duty s)))))
      (lastBlink s) (ledState s)
      (trace s ++ setup_events (octrl s)).
Proof.
  destruct s. unfold setup_events, dump_lines, or_INVERTB. run_io.
  change (uint16 (Simple.PWMSTEPS `quot` 2 - 1)) with 127.
  reflexivity.
Qed.

(** Writing one value to the four pins leaves it on each of them. *)
Lemma lookup_four_pins {V} (m : gmap Z V) (v : V) (pin : Z) :
  pin = Simple.upperA \/ pin = Simple.upperB \/
  pin = Simple.lowerA \/ pin = Simple.lowerB ->
  <[Simple.lowerB := v]>
    (<[Simple.lowerA := v]>
       (<[Simple.upperB := v]> (<[Simple.upperA := v]> m))) !! pin = Some v.
Proof.
  unfold Simple.upperA, Simple.upperB, Simple.lowerA, Simple.lowerB.
  intros [-> | [-> | [-> | ->]]].
  - now rewrite !lookup_insert_ne, lookup_insert_eq by discriminate.
  - now rewrite !lookup_insert_ne, lookup_insert_eq by discriminate.
  - now rewrite lookup_insert_ne, lookup_insert_eq by discriminate.
  - now rewrite lookup_insert_eq.
Qed.

Lemma setAmp_driven amp s : driven_at (uint16 amp) (exec (Simple.setAmp amp) s).
Proof.
  rewrite setAmp_exec. unfold driven_at. cbn [pwm_duty].
  repeat split; apply lookup_four_pins; auto.
Qed.

Lemma setFreq_tuned frq s : tuned_to frq (exec (Simple.setFreq frq) s).
Proof.
  rewrite setFreq_exec. unfold tuned_to. cbn [pwm_freq].
  repeat split; apply lookup_four_pins; auto.
Qed.

Lemma tuned_in_tune frq s : tuned_to frq s -> in_tune s.
Proof. intros (Ha & Hb & Hc & Hd). unfold in_tune. now rewrite Ha, Hb, Hc, Hd. Qed.

Lemma setAmp_inverted amp s :
  inverted FLEXPWM4_SM2OCTRL (exec (Simple.setAmp amp) s)
  /\ inverted FLEXPWM2_SM2OCTRL (exec (Simple.setAmp amp) s).
Proof.
  rewrite setAmp_exec. unfold inverted. cbn [octrl].
  rewrite fn_lookup_insert_ne, !fn_lookup_insert by discriminate.
  split; apply or_INVERTB_inverted.
Qed.

(** [blink] touches nothing but [lastBlink], [ledState] and the LED pin. *)
Lemma blink_frame millis s :
  octrl (exec (Simple.blink millis) s) = octrl s
  /\ analog_write_res (exec (Simple.blink millis) s) = analog_write_res s
  /\ pwm_freq (exec (Simple.blink millis) s) = pwm_freq s
  /\ pwm_duty (exec (Simple.blink millis) s) = pwm_duty s.
Proof.
  destruct (Z.lt_ge_cases (uint32 (uint32 millis - lastBlink s))
                          (uint32 Simple.blinkDuration)) as [Hlt | Hge].
  - rewrite blink_exec_early by assumption. repeat split.
  - rewrite blink_exec_due by assumption. repeat split.
Qed.

(** A call leaves a control register alone or ORs [INVERTB] into it. *)
Lemma run_octrl c s r :
  octrl (exec (Simple.run c) s) r = octrl s r
  \/ octrl (exec (Simple.run c) s) r = or_INVERTB (octrl s r).
Proof.
  assert (forall v4 v2,
    v4 = or_INVERTB (octrl s FLEXPWM4_SM2OCTRL) ->
    v2 = or_INVERTB (octrl s FLEXPWM2_SM2OCTRL) ->
    <[FLEXPWM2_SM2OCTRL := v2]> (<[FLEXPWM4_SM2OCTRL := v4]> (octrl s)) r
      = octrl s r
    \/ <[FLEXPWM2_SM2OCTRL := v2]> (<[FLEXPWM4_SM2OCTRL := v4]> (octrl s)) r
      = or_INVERTB (octrl s r)) as Hor.
  { intros v4 v2 -> ->.
    destruct r; try (left; reflexivity); right;
      [ now rewrite fn_lookup_insert
      | now rewrite fn_lookup_insert_ne, fn_lookup_insert by discriminate ]. }
  destruct c as [frq | amp | | millis | | millis]; cbn [Simple.run].
  - rewrite setFreq_exec. now left.
  - rewrite setAmp_exec. cbn [octrl]. now apply Hor.
  - rewrite showFlexPWMInit_exec. now left.
  - left. now rewrite (proj1 (blink_frame millis s)).
  - rewrite setup_exec. cbn [octrl]. now apply Hor.
  - left. unfold Simple.loop. now rewrite (proj1 (blink_frame millis s)).
Qed.

(** A call retunes all four pins together or none of them. *)
Lemma run_pwm_freq c s :
  pwm_freq (exec (Simple.run c) s) = pwm_freq s
  \/ exists frq, tuned_to frq (exec (Simple.run c) s).
Proof.
  destruct c as [frq | amp | | millis | | millis]; cbn [Simple.run].
  - right. exists frq. apply setFreq_tuned.
  - left. now rewrite setAmp_exec.
  - left. now rewrite showFlexPWMInit_exec.
  - left. apply blink_frame.
  - right. exists Simple.FREQUENCY. rewrite setup_exec.
    unfold tuned_to. cbn [pwm_freq]. repeat split; apply lookup_four_pins; auto.
  - left. unfold Simple.loop. apply blink_frame.
Qed.

Lemma run_in_tune c s : in_tune s -> in_tune (exec (Simple.run c) s).
Proof.
  intros Hs. destruct (run_pwm_freq c s) as [Heq | [frq Hfrq]].
  - unfold in_tune. now rewrite Heq.
  - now apply tuned_in_tune with frq.
Qed.

Lemma reachable_in_tune s : reachable Simple.run s -> in_tune s.
Proof.
  induction 1 as [regs _ | s c _ IH].
  - unfold in_tune. cbn [Simple.boot pwm_freq]. now rewrite !lookup_empty.
  - now apply run_in_tune.
Qed.

Lemma or_INVERTB_range v : 0 <= or_INVERTB v < 2 ^ 16.
Proof. apply uint16_range. Qed.

Lemma run_regs16 c s : regs16 (octrl s) -> regs16 (octrl (exec (Simple.run c) s)).
Proof.
  intros Hs r. destruct (run_octrl c s r) as [-> | ->].
  - apply Hs.
  - apply or_INVERTB_range.
Qed.

Lemma reachable_regs16 s : reachable Simple.run s -> regs16 (octrl s).
Proof.
  induction 1 as [regs Hregs | s c _ IH].
  - exact Hregs.
  - now apply run_regs16.
Qed.

Lemma run_inverted c s r : inverted r s -> inverted r (exec (Simple.run c) s).
Proof.
  unfold inverted. intros Hs. destruct (run_octrl c s r) as [-> | ->].
  - exact Hs.
  - apply or_INVERTB_inverted.
Qed.

(** ** Either sketch, and the events a call adds *)

Lemma run_eq k c : run k c = Simple.run c.
Proof. destruct k; [reflexivity | apply Part000_run_eq]. Qed.

Lemma reachable_run k s : reachable (run k) s <-> reachable Simple.run s.
Proof. destruct k; [reflexivity | apply reachable_Part000]. Qed.

Lemma run_calls_run k cs s : run_calls (run k) cs s = run_calls Simple.run cs s.
Proof. destruct k; [reflexivity | apply run_calls_Part000]. Qed.

Lemma exec_seq (m k : io unit) s : exec (m;; k) s = exec k (exec m s).
Proof. unfold exec, mbind, io_bind. now destruct (m s). Qed.

Lemma events_of_app {A} (m : io A) s evs :
  trace (exec m s) = trace s ++ evs -> events_of m s = evs.
Proof. intros H. unfold events_of. rewrite H. apply drop_app_length. Qed.

Lemma setAmp_events amp s :
  events_of (Simple.setAmp amp) s
  = [EvPrintf "\namplitude: %u " (uint16 amp);
     EvAnalogWrite Simple.upperA (uint16 amp);
     EvAnalogWrite Simple.upperB (uint16 amp);
     EvAnalogWrite Simple.lowerA (uint16 amp);
     EvAnalogWrite Simple.lowerB (uint16 amp);
     EvStore FLEXPWM4_SM2OCTRL (or_INVERTB (octrl s FLEXPWM4_SM2OCTRL));
     EvStore FLEXPWM2_SM2OCTRL (or_INVERTB (octrl s FLEXPWM2_SM2OCTRL))].
Proof. apply events_of_app. now rewrite setAmp_exec. Qed.

Lemma setup_events_of s : events_of Simple.setup s = setup_events (octrl s).
Proof. apply events_of_app. now rewrite setup_exec. Qed.

Lemma showFlexPWMInit_events s :
  events_of Simple.showFlexPWMInit s = dump_lines (octrl s).
Proof. apply events_of_app. now rewrite showFlexPWMInit_exec. Qed.

(** What the amplitude setter does, whatever value it is handed. *)
Lemma setAmp_any k amp s :
  0 <= amp < 2 ^ 16 ->
  driven_at amp (exec (run k (CallSetAmp amp)) s)
  /\ inverted FLEXPWM4_SM2OCTRL (exec (run k (CallSetAmp amp)) s)
  /\ inverted FLEXPWM2_SM2OCTRL (exec (run k (CallSetAmp amp)) s)
  /\ List.filter is_duty (events_of (run k (CallSetAmp amp)) s)
     = [EvAnalogWrite Simple.upperA amp; EvAnalogWrite Simple.upperB amp;
        EvAnalogWrite Simple.lowerA amp; EvAnalogWrite Simple.lowerB amp]
  /\ analog_write_res (exec (run k (CallSetAmp amp)) s) = analog_write_res s.
Proof.
  intros Hamp. rewrite run_eq. cbn [Simple.run].
  pose proof (setAmp_driven amp s) as Hd.
  pose proof (setAmp_inverted amp s) as [H4 H2].
  rewrite setAmp_events.
  rewrite (uint16_small amp Hamp) in *.
  split; [exact Hd |]. split; [exact H4 |]. split; [exact H2 |].
  split; [reflexivity |]. now rewrite setAmp_exec.
Qed.

(** ** Order of accesses *)

Lemma all_beforeb_sound P Q l : all_beforeb P Q l = true -> all_before P Q l.
Proof.
  induction l as [| e l IH]; intros Hb i j e1 e2 Hi Hj HP HQ.
  - rewrite lookup_nil in Hi. discriminate.
  - cbn [all_beforeb] in Hb. apply andb_true_iff in Hb as [Hhead Htail].
    destruct j as [| j].
    + cbn in Hj. injection Hj as <-. rewrite HQ in Hhead.
      rewrite forallb_forall in Hhead.
      assert (In e1 (e :: l)) as Hin
        by (apply list_elem_of_In; eapply list_elem_of_lookup_2; eassumption).
      specialize (Hhead e1 Hin). rewrite HP in Hhead. discriminate.
    + destruct i as [| i]; [lia |].
      cbn in Hi, Hj. specialize (IH Htail i j e1 e2 Hi Hj HP HQ). lia.
Qed.

Lemma all_before_weaken P Q Q' l :
  (forall e, Q' e = true -> Q e = true) ->
  all_before P Q l -> all_before P Q' l.
Proof. intros Hsub H i j e1 e2 Hi Hj HP HQ. eapply H; eauto. Qed.

Lemma is_invert_store e : is_invert e = true -> is_store e = true.
Proof. now destruct e. Qed.

Lemma setup_events_order regs : write_order (setup_events regs).
Proof.
  unfold write_order. split; [| split; [| split]].
  - exists 4%nat. reflexivity.
  - apply all_beforeb_sound. reflexivity.
  - apply all_beforeb_sound. reflexivity.
  - apply all_before_weaken with is_store; [apply is_invert_store |].
    apply all_beforeb_sound. reflexivity.
Qed.

Lemma setup_events_counts regs :
  length (List.filter is_res (setup_events regs)) = 1%nat
  /\ length (List.filter is_freq (setup_events regs)) = 4%nat
  /\ length (List.filter is_duty (setup_events regs)) = 4%nat
  /\ length (List.filter is_invert (setup_events regs)) = 2%nat.
Proof.
  split; [reflexivity |]. split; [reflexivity |]. split; [reflexivity |].
  unfold setup_events, dump_lines. cbn [app List.filter is_invert].
  now rewrite !or_INVERTB_inverted.
Qed.

Lemma or_INVERTB_idem v : or_INVERTB (or_INVERTB v) = or_INVERTB v.
Proof.
  apply Z.bits_inj'. intros n _. rewrite !or_INVERTB_bit.
  destruct (n <? 16), (Z.testbit v n), (n =? 9); reflexivity.
Qed.

Lemma lnot_flips x : lnot x <> x.
Proof. unfold lnot. destruct (Z.eqb_spec x 0); lia. Qed.

(** ** The claims *)

(** C1. For every duty value [d] in [0, PWMSTEPS - 1], after the amplitude
    setter ([setAmp] in one sketch, [setAmplitude] in the other) has run
    with argument [d], the four output channels upper A/B and lower A/B all
    carry the duty value [d], and the channel-B inversion bit is set in
    both [FLEXPWM4_SM2OCTRL] and [FLEXPWM2_SM2OCTRL]. *)
Theorem setAmp_duty_and_inversion (k : sketch) (s : state) (d : Z) :
  0 <= d <= Simple.PWMSTEPS - 1 ->
  driven_at d (exec (run k (CallSetAmp d)) s)
  /\ inverted FLEXPWM4_SM2OCTRL (exec (run k (CallSetAmp d)) s)
  /\ inverted FLEXPWM2_SM2OCTRL (exec (run k (CallSetAmp d)) s).
Proof.
  intros Hd.
  assert (0 <= d < 2 ^ 16) as Hd16 by (unfold Simple.PWMSTEPS in Hd; lia).
  destruct (setAmp_any k d s Hd16) as (H1 & H2 & H3 & _).
  auto.
Qed.

Lemma setAmp_duty_and_inversion_witness :
  0 <= 127 <= Simple.PWMSTEPS - 1
  /\ driven_at 127
       (exec (run nyutinylev_simple (CallSetAmp 127)) (Simple.boot (fun _ => 0)))
  /\ inverted FLEXPWM4_SM2OCTRL
       (exec (run nyutinylev_simple (CallSetAmp 127)) (Simple.boot (fun _ => 0)))
  /\ inverted FLEXPWM2_SM2OCTRL
       (exec (run nyutinylev_simple (CallSetAmp 127)) (Simple.boot (fun _ => 0))).
Proof.
  split; [unfold Simple.PWMSTEPS; lia |].
  apply (setAmp_duty_and_inversion nyutinylev_simple (Simple.boot (fun _ => 0)) 127).
  unfold Simple.PWMSTEPS; lia.
Defined.

(** C2, as the claim states it, fails.  After a prior [setAmp(127)] the
    call [setAmp(300)], with [PWMSTEPS = 256], is not rejected: it writes
    300 to all four channels, so the duty values differ from those the
    prior call left. *)
Lemma setAmp_300_is_written :
  let prior := exec (run nyutinylev_simple (CallSetAmp 127))
                    (Simple.boot (fun _ => 0)) in
  let after := exec (run nyutinylev_simple (CallSetAmp 300)) prior in
  Simple.PWMSTEPS <= 300
  /\ driven_at 127 prior
  /\ driven_at 300 after
  /\ pwm_duty after <> pwm_duty prior
  /\ trace after <> trace prior.
Proof.
  cbv zeta.
  assert (0 <= 127 < 2 ^ 16) as H127 by lia.
  assert (0 <= 300 < 2 ^ 16) as H300 by lia.
  destruct (setAmp_any nyutinylev_simple 127 (Simple.boot (fun _ => 0)) H127)
    as (Hprior & _).
  destruct (setAmp_any nyutinylev_simple 300
              (exec (run nyutinylev_simple (CallSetAmp 127))
                    (Simple.boot (fun _ => 0))) H300)
    as (Hafter & _).
  split; [unfold Simple.PWMSTEPS; lia |].
  split; [exact Hprior |]. split; [exact Hafter |]. split.
  - intros Heq. destruct Hprior as [Hp _]. destruct Hafter as [Ha _].
    rewrite Heq, Hp in Ha. discriminate.
  - cbn [run Simple.run]. rewrite (setAmp_exec 300). cbn [trace].
    intros Heq. apply (f_equal length) in Heq.
    rewrite length_app in Heq. cbn [length] in Heq. lia.
Qed.

(** C2, amended.  For every 16-bit duty value [a] at or above [PWMSTEPS]
    (300, say), the amplitude setter does not reject the call and does not
    clamp: it hands [a] as it is to [analogWrite] on each of the four
    channels, which then all carry [a], and it sets the inversion bit in
    both control registers. *)
Theorem setAmp_out_of_range_written (k : sketch) (s : state) (a : Z) :
  Simple.PWMSTEPS <= a < 2 ^ 16 ->
  driven_at a (exec (run k (CallSetAmp a)) s)
  /\ inverted FLEXPWM4_SM2OCTRL (exec (run k (CallSetAmp a)) s)
  /\ inverted FLEXPWM2_SM2OCTRL (exec (run k (CallSetAmp a)) s)
  /\ List.filter is_duty (events_of (run k (CallSetAmp a)) s)
     = [EvAnalogWrite Simple.upperA a; EvAnalogWrite Simple.upperB a;
        EvAnalogWrite Simple.lowerA a; EvAnalogWrite Simple.lowerB a].
Proof.
  intros Ha.
  assert (0 <= a < 2 ^ 16) as Ha16 by (unfold Simple.PWMSTEPS in Ha; lia).
  destruct (setAmp_any k a s Ha16) as (H1 & H2 & H3 & H4 & _).
  auto.
Qed.

Lemma setAmp_out_of_range_written_witness :
  Simple.PWMSTEPS <= 300 < 2 ^ 16
  /\ driven_at 300
       (exec (run part_000 (CallSetAmp 300)) (Simple.boot (fun _ => 0)))
  /\ inverted FLEXPWM4_SM2OCTRL
       (exec (run part_000 (CallSetAmp 300)) (Simple.boot (fun _ => 0)))
  /\ inverted FLEXPWM2_SM2OCTRL
       (exec (run part_000 (CallSetAmp 300)) (Simple.boot (fun _ => 0)))
  /\ List.filter is_duty
       (events_of (run part_000 (CallSetAmp 300)) (Simple.boot (fun _ => 0)))
     = [EvAnalogWrite Simple.upperA 300; EvAnalogWrite Simple.upperB 300;
        EvAnalogWrite Simple.lowerA 300; EvAnalogWrite Simple.lowerB 300].
Proof.
  split; [unfold Simple.PWMSTEPS; lia |].
  apply (setAmp_out_of_range_written part_000 (Simple.boot (fun _ => 0)) 300).
  unfold Simple.PWMSTEPS; lia.
Defined.

(** C3. For every frequency [f > 0], after the frequency setter ([setFreq]
    in one sketch, [setFrequency] in the other) has run with argument [f],
    all four channels carry the frequency [f]; and in every state the
    sketch reaches by its calls from reset, the upper and the lower array
    report the same frequency. *)
Theorem setFreq_keeps_arrays_in_tune (k : sketch) (s : state) (f : float) :
  float_pos f = true ->
  reachable (run k) s ->
  tuned_to f (exec (run k (CallSetFreq f)) s) /\ in_tune s.
Proof.
  intros _ Hs. split.
  - rewrite run_eq. apply setFreq_tuned.
  - apply reachable_in_tune. now apply (reachable_run k).
Qed.

Lemma setFreq_keeps_arrays_in_tune_witness :
  float_pos Simple.FREQUENCY = true
  /\ reachable (run nyutinylev_simple)
       (exec (run nyutinylev_simple CallSetup) (Simple.boot (fun _ => 0)))
  /\ tuned_to Simple.FREQUENCY
       (exec (run nyutinylev_simple (CallSetFreq Simple.FREQUENCY))
          (exec (run nyutinylev_simple CallSetup) (Simple.boot (fun _ => 0))))
  /\ in_tune (exec (run nyutinylev_simple CallSetup) (Simple.boot (fun _ => 0))).
Proof.
  assert (regs16 (fun _ => 0)) as H0 by (intros r; lia).
  split; [reflexivity |].
  split; [apply reach_call, reach_boot, H0 |].
  apply (setFreq_keeps_arrays_in_tune nyutinylev_simple
           (exec (run nyutinylev_simple CallSetup) (Simple.boot (fun _ => 0)))
           Simple.FREQUENCY).
  - reflexivity.
  - apply reach_call, reach_boot, H0.
Defined.

(** C4, as the claim states it, fails.  At reset no resolution has been
    configured, and [setAmp(127)] nevertheless performs its four duty
    writes: no configuration error exists in the sketch. *)
Lemma setAmp_before_analogWriteRes_writes :
  let s0 := Simple.boot (fun _ => 0) in
  analog_write_res s0 = None
  /\ driven_at 127 (exec (run nyutinylev_simple (CallSetAmp 127)) s0)
  /\ List.filter is_duty (events_of (run nyutinylev_simple (CallSetAmp 127)) s0)
     = [EvAnalogWrite Simple.upperA 127; EvAnalogWrite Simple.upperB 127;
        EvAnalogWrite Simple.lowerA 127; EvAnalogWrite Simple.lowerB 127].
Proof.
  cbv zeta.
  assert (0 <= 127 < 2 ^ 16) as H127 by lia.
  destruct (setAmp_any nyutinylev_simple 127 (Simple.boot (fun _ => 0)) H127)
    as (Hd & _ & _ & Hev & _).
  split; [reflexivity |]. split; [exact Hd | exact Hev].
Qed.

(** C4, amended.  Calling the amplitude setter before the PWM resolution
    has been configured does not fail: the setter never looks at the
    resolution.  It performs the four duty writes with the value it was
    given and sets both inversion bits, as it does after configuration, and
    the resolution stays unconfigured. *)
Theorem setAmp_ignores_resolution (k : sketch) (s : state) (a : Z) :
  analog_write_res s = None ->
  0 <= a < 2 ^ 16 ->
  driven_at a (exec (run k (CallSetAmp a)) s)
  /\ inverted FLEXPWM4_SM2OCTRL (exec (run k (CallSetAmp a)) s)
  /\ inverted FLEXPWM2_SM2OCTRL (exec (run k (CallSetAmp a)) s)
  /\ List.filter is_duty (events_of (run k (CallSetAmp a)) s)
     = [EvAnalogWrite Simple.upperA a; EvAnalogWrite Simple.upperB a;
        EvAnalogWrite Simple.lowerA a; EvAnalogWrite Simple.lowerB a]
  /\ analog_write_res (exec (run k (CallSetAmp a)) s) = None.
Proof.
  intros Hres Ha.
  destruct (setAmp_any k a s Ha) as (H1 & H2 & H3 & H4 & H5).
  rewrite Hres in H5. auto.
Qed.

Lemma setAmp_ignores_resolution_witness :
  analog_write_res (Simple.boot (fun _ => 0)) = None
  /\ 0 <= 127 < 2 ^ 16
  /\ driven_at 127
       (exec (run nyutinylev_simple (CallSetAmp 127)) (Simple.boot (fun _ => 0)))
  /\ inverted FLEXPWM4_SM2OCTRL
       (exec (run nyutinylev_simple (CallSetAmp 127)) (Simple.boot (fun _ => 0)))
  /\ inverted FLEXPWM2_SM2OCTRL
       (exec (run nyutinylev_simple (CallSetAmp 127)) (Simple.boot (fun _ => 0)))
  /\ List.filter is_duty
       (events_of (run nyutinylev_simple (CallSetAmp 127))
          (Simple.boot (fun _ => 0)))
     = [EvAnalogWrite Simple.upperA 127; EvAnalogWrite Simple.upperB 127;
        EvAnalogWrite Simple.lowerA 127; EvAnalogWrite Simple.lowerB 127]
  /\ analog_write_res
       (exec (run nyutinylev_simple (CallSetAmp 127)) (Simple.boot (fun _ => 0)))
     = None.
Proof.
  split; [reflexivity |]. split; [lia |].
  apply (setAmp_ignores_resolution nyutinylev_simple (Simple.boot (fun _ => 0)) 127).
  - reflexivity.
  - lia.
Defined.

(** C5. ORing [INVERTB = 0x0200] into a control register is idempotent:
    for every register and every starting value, doing [r |= INVERTB] twice
    in succession leaves every control register with the value that doing
    it once leaves; the same holds for the amplitude setter, which carries
    the two [|=] statements. *)
Theorem or_assign_INVERTB_idempotent (r r' : reg) (s : state) :
  Simple.INVERTB = 0x0200
  /\ octrl (exec (or_assign r Simple.INVERTB;; or_assign r Simple.INVERTB) s) r'
     = octrl (exec (or_assign r Simple.INVERTB) s) r'
  /\ forall (k : sketch) (a : Z),
       octrl (exec (run k (CallSetAmp a);; run k (CallSetAmp a)) s) r'
       = octrl (exec (run k (CallSetAmp a)) s) r'.
Proof.
  split; [reflexivity |]. split.
  - rewrite exec_seq, !or_assign_exec. cbn [octrl].
    rewrite fn_lookup_insert, or_INVERTB_idem.
    destruct (decide (r = r')) as [-> | Hne].
    + now rewrite !fn_lookup_insert.
    + now rewrite !fn_lookup_insert_ne by assumption.
  - intros k a. rewrite exec_seq, run_eq. cbn [Simple.run].
    rewrite !setAmp_exec. cbn [octrl].
    rewrite fn_lookup_insert.
    rewrite (fn_lookup_insert_ne _ FLEXPWM2_SM2OCTRL FLEXPWM4_SM2OCTRL)
      by discriminate.
    rewrite fn_lookup_insert, !or_INVERTB_idem.
    destruct r'; reflexivity.
Qed.

(** C6. In the initialization sequence of [setup] the hardware writes come
    in this order: the PWM resolution is configured before any duty value
    is written; every frequency write comes before every duty write; and
    the inversion bit is stored only after the duty writes.  Within the
    amplitude setter the four duty writes come before the two stores that
    set the inversion bit. *)
Theorem setup_write_order (k : sketch) (s : state) :
  write_order (events_of (run k CallSetup) s)
  /\ length (List.filter is_res (events_of (run k CallSetup) s)) = 1%nat
  /\ length (List.filter is_freq (events_of (run k CallSetup) s)) = 4%nat
  /\ length (List.filter is_duty (events_of (run k CallSetup) s)) = 4%nat
  /\ length (List.filter is_invert (events_of (run k CallSetup) s)) = 2%nat
  /\ forall a : Z,
       all_before is_duty is_invert (events_of (run k (CallSetAmp a)) s)
       /\ length (List.filter is_duty (events_of (run k (CallSetAmp a)) s)) = 4%nat
       /\ length (List.filter is_invert (events_of (run k (CallSetAmp a)) s)) = 2%nat.
Proof.
  rewrite !run_eq. cbn [Simple.run]. rewrite setup_events_of.
  split; [apply setup_events_order |].
  destruct (setup_events_counts (octrl s)) as (H1 & H2 & H3 & H4).
  repeat (split; [assumption |]).
  intros a. rewrite run_eq. cbn [Simple.run]. rewrite setAmp_events.
  split; [| split].
  - apply all_before_weaken with is_store; [apply is_invert_store |].
    apply all_beforeb_sound. reflexivity.
  - reflexivity.
  - cbn [List.filter is_invert]. now rewrite !or_INVERTB_inverted.
Qed.

(** C7. For a heartbeat whose interval is 500 and whose last-toggle
    timestamp starts at 0, [blink] called at times 0, 400 and 600 leaves
    the state as it is at 0 and at 400, and at 600 toggles the LED state,
    writes it to the LED pin and sets the last-toggle timestamp to 600. *)
Theorem blink_scenario (k : sketch) (s : state) :
  lastBlink s = 0 ->
  let s1 := exec (run k (CallBlink 0)) s in
  let s2 := exec (run k (CallBlink 400)) s1 in
  let s3 := exec (run k (CallBlink 600)) s2 in
  Simple.blinkDuration = 500
  /\ s1 = s
  /\ s2 = s
  /\ ledState s3 = lnot (ledState s)
  /\ ledState s3 <> ledState s
  /\ lastBlink s3 = 600
  /\ trace s3 = trace s ++ [EvDigitalWrite Simple.ledPin (lnot (ledState s))].
Proof.
  intros Hlb. cbv zeta. rewrite !run_eq. cbn [Simple.run].
  assert (exec (Simple.blink 0) s = s) as H0
    by (apply blink_exec_early; rewrite Hlb; reflexivity).
  rewrite H0.
  assert (exec (Simple.blink 400) s = s) as H400
    by (apply blink_exec_early; rewrite Hlb; reflexivity).
  rewrite H400.
  rewrite blink_exec_due by (rewrite Hlb; discriminate).
  cbn [ledState lastBlink trace].
  repeat split. apply lnot_flips.
Qed.

Lemma blink_scenario_witness :
  lastBlink (Simple.boot (fun _ => 0)) = 0
  /\ let s := Simple.boot (fun _ => 0) in
     let s1 := exec (run nyutinylev_simple (CallBlink 0)) s in
     let s2 := exec (run nyutinylev_simple (CallBlink 400)) s1 in
     let s3 := exec (run nyutinylev_simple (CallBlink 600)) s2 in
     Simple.blinkDuration = 500
     /\ s1 = s
     /\ s2 = s
     /\ ledState s3 = lnot (ledState s)
     /\ ledState s3 <> ledState s
     /\ lastBlink s3 = 600
     /\ trace s3 = trace s ++ [EvDigitalWrite Simple.ledPin (lnot (ledState s))].
Proof.
  split; [reflexivity |].
  apply (blink_scenario nyutinylev_simple (Simple.boot (fun _ => 0))).
  reflexivity.
Defined.

(** C8. The diagnostic dump ([showFlexPWMInit] in one sketch,
    [ShowFlexPWMInit] in the other) is a pure read: it prints the raw
    values of the eight control registers, FlexPWM2 first, and leaves the
    control registers, the duty values, the frequencies, the resolution and
    the heartbeat state as they were; all it adds to the trace is serial
    output. *)
Theorem showFlexPWMInit_pure_read (k : sketch) (s : state) :
  octrl (exec (run k CallShow) s) = octrl s
  /\ pwm_duty (exec (run k CallShow) s) = pwm_duty s
  /\ pwm_freq (exec (run k CallShow) s) = pwm_freq s
  /\ analog_write_res (exec (run k CallShow) s) = analog_write_res s
  /\ lastBlink (exec (run k CallShow) s) = lastBlink s
  /\ ledState (exec (run k CallShow) s) = ledState s
  /\ trace (exec (run k CallShow) s) = trace s ++ events_of (run k CallShow) s
  /\ forallb is_serial (events_of (run k CallShow) s) = true
  /\ printed (events_of (run k CallShow) s) = map (octrl s) dump_order.
Proof.
  rewrite run_eq. cbn [Simple.run].
  rewrite showFlexPWMInit_events, showFlexPWMInit_exec.
  cbn [octrl pwm_duty pwm_freq analog_write_res lastBlink ledState trace].
  repeat split.
Qed.

(** C9. For every prior 16-bit content of the control registers, the
    amplitude setter changes nothing in them but bit [0x0200] of
    [FLEXPWM4_SM2OCTRL] and [FLEXPWM2_SM2OCTRL]: the six other registers
    keep their values, every bit other than bit 9 of every register keeps
    its value, and the two registers end as their prior value ORed with
    [INVERTB]. *)
Theorem setAmp_changes_only_INVERTB (k : sketch) (s : state) (a : Z) :
  regs16 (octrl s) ->
  (forall r : reg,
     r <> FLEXPWM4_SM2OCTRL -> r <> FLEXPWM2_SM2OCTRL ->
     octrl (exec (run k (CallSetAmp a)) s) r = octrl s r)
  /\ (forall (r : reg) (n : Z),
        n <> 9 ->
        Z.testbit (octrl (exec (run k (CallSetAmp a)) s) r) n
        = Z.testbit (octrl s r) n)
  /\ octrl (exec (run k (CallSetAmp a)) s) FLEXPWM4_SM2OCTRL
     = Z.lor (octrl s FLEXPWM4_SM2OCTRL) Simple.INVERTB
  /\ octrl (exec (run k (CallSetAmp a)) s) FLEXPWM2_SM2OCTRL
     = Z.lor (octrl s FLEXPWM2_SM2OCTRL) Simple.INVERTB.
Proof.
  intros H16. rewrite run_eq. cbn [Simple.run]. rewrite setAmp_exec. cbn [octrl].
  assert (forall r n, n <> 9 ->
            Z.testbit (or_INVERTB (octrl s r)) n = Z.testbit (octrl s r) n) as Hbit.
  { intros r n Hn. rewrite (or_INVERTB_16bit _ (H16 r)), Z.lor_spec, INVERTB_bit.
    replace (n =? 9) with false by (symmetry; now apply Z.eqb_neq).
    apply orb_false_r. }
  split; [| split; [| split]].
  - intros r H4 H2. now rewrite !fn_lookup_insert_ne by congruence.
  - intros r n Hn.
    destruct r; try reflexivity.
    + rewrite fn_lookup_insert. now apply Hbit.
    + rewrite fn_lookup_insert_ne, fn_lookup_insert by discriminate.
      now apply Hbit.
  - rewrite fn_lookup_insert_ne, fn_lookup_insert by discriminate.
    apply or_INVERTB_16bit, H16.
  - rewrite fn_lookup_insert. apply or_INVERTB_16bit, H16.
Qed.

Lemma setAmp_changes_only_INVERTB_witness :
  regs16 (octrl (Simple.boot (fun _ => 0x0400)))
  /\ (forall r : reg,
        r <> FLEXPWM4_SM2OCTRL -> r <> FLEXPWM2_SM2OCTRL ->
        octrl (exec (run nyutinylev_simple (CallSetAmp 127))
                 (Simple.boot (fun _ => 0x0400))) r
        = octrl (Simple.boot (fun _ => 0x0400)) r)
  /\ (forall (r : reg) (n : Z),
        n <> 9 ->
        Z.testbit (octrl (exec (run nyutinylev_simple (CallSetAmp 127))
                            (Simple.boot (fun _ => 0x0400))) r) n
        = Z.testbit (octrl (Simple.boot (fun _ => 0x0400)) r) n)
  /\ octrl (exec (run nyutinylev_simple (CallSetAmp 127))
              (Simple.boot (fun _ => 0x0400))) FLEXPWM4_SM2OCTRL
     = Z.lor (octrl (Simple.boot (fun _ => 0x0400)) FLEXPWM4_SM2OCTRL)
             Simple.INVERTB
  /\ octrl (exec (run nyutinylev_simple (CallSetAmp 127))
              (Simple.boot (fun _ => 0x0400))) FLEXPWM2_SM2OCTRL
     = Z.lor (octrl (Simple.boot (fun _ => 0x0400)) FLEXPWM2_SM2OCTRL)
             Simple.INVERTB.
Proof.
  split; [intros r; simpl; lia |].
  apply (setAmp_changes_only_INVERTB nyutinylev_simple
           (Simple.boot (fun _ => 0x0400)) 127).
  intros r; simpl; lia.
Defined.

(** C10. Once the channel-B inversion bit is set in a control register, no
    call of the sketch (frequency setter, amplitude setter, diagnostic
    dump, heartbeat tick, [setup], [loop]) clears it: after any sequence of
    calls the bit is still set. *)
Theorem inversion_bit_never_cleared
    (k : sketch) (r : reg) (s : state) (cs : list call) :
  inverted r s -> inverted r (run_calls (run k) cs s).
Proof.
  rewrite run_calls_run. revert s.
  induction cs as [| c cs IH]; intros s Hs; cbn [run_calls].
  - exact Hs.
  - apply IH. now apply run_inverted.
Qed.

Lemma inversion_bit_never_cleared_witness :
  inverted FLEXPWM4_SM2OCTRL (Simple.boot (fun _ => 0x0200))
  /\ inverted FLEXPWM4_SM2OCTRL
       (run_calls (run nyutinylev_simple)
          [CallSetFreq Simple.FREQUENCY; CallBlink 600; CallShow; CallSetAmp 10]
          (Simple.boot (fun _ => 0x0200))).
Proof.
  split; [reflexivity |].
  apply (inversion_bit_never_cleared nyutinylev_simple FLEXPWM4_SM2OCTRL
           (Simple.boot (fun _ => 0x0200))
           [CallSetFreq Simple.FREQUENCY; CallBlink 600; CallShow; CallSetAmp 10]).
  reflexivity.
Defined.

(** * Further properties of the sketches *)

(** ** Helpers *)

Lemma uint32_range v : 0 <= uint32 v < 2 ^ 32.
Proof. unfold uint32. apply Z.mod_pos_bound. lia. Qed.

Lemma uint32_small v : 0 <= v < 2 ^ 32 -> uint32 v = v.
Proof. intros H. unfold uint32. now apply Z.mod_small. Qed.

(** The elapsed time [blink] computes, [e] milliseconds after the last
    toggle, is [e] even when the counter has wrapped in between. *)
Lemma elapsed_across_wrap lb e :
  0 <= e < 2 ^ 32 -> uint32 (uint32 (uint32 (lb + e)) - lb) = e.
Proof.
  intros He. unfold uint32.
  rewrite Z.mod_mod by lia.
  rewrite Zminus_mod_idemp_l.
  replace (lb + e - lb) with e by lia.
  now apply Z.mod_small.
Qed.

Lemma lnot_bit x : lnot x = LOW \/ lnot x = HIGH.
Proof. unfold lnot, LOW, HIGH. destruct (x =? 0); auto. Qed.

Lemma lnot_lnot x : x = LOW \/ x = HIGH -> lnot (lnot x) = x.
Proof. unfold LOW, HIGH. intros [-> | ->]; reflexivity. Qed.

Lemma led_level_app l evs :
  led_level (l ++ evs) = fold_left led_step evs (led_level l).
Proof. unfold led_level. apply fold_left_app. Qed.

(** A call that is not [blink] or [loop] leaves the heartbeat alone. *)
Lemma run_heartbeat c s : heartbeat_ok s -> heartbeat_ok (exec (Simple.run c) s).
Proof.
  intros (Hled & Hlast & Hpin). unfold heartbeat_ok.
  assert (forall millis, heartbeat_ok (exec (Simple.blink millis) s)) as Hblink.
  { intros millis.
    destruct (Z.lt_ge_cases (uint32 (uint32 millis - lastBlink s))
                            (uint32 Simple.blinkDuration)) as [Hlt | Hge].
    - rewrite blink_exec_early by assumption. now repeat split.
    - rewrite blink_exec_due by assumption. unfold heartbeat_ok.
      cbn [ledState lastBlink trace]. rewrite led_level_app.
      cbn [fold_left led_step]. rewrite Z.eqb_refl.
      split; [apply lnot_bit |]. split; [apply uint32_range | reflexivity]. }
  destruct c as [frq | amp | | millis | | millis]; cbn [Simple.run].
  - rewrite setFreq_exec. cbn [ledState lastBlink trace].
    rewrite led_level_app. cbn [fold_left led_step]. auto.
  - rewrite setAmp_exec. cbn [ledState lastBlink trace].
    rewrite led_level_app. cbn [fold_left led_step]. auto.
  - rewrite showFlexPWMInit_exec. cbn [ledState lastBlink trace].
    rewrite led_level_app. unfold dump_lines. cbn [fold_left led_step]. auto.
  - apply Hblink.
  - rewrite setup_exec. cbn [ledState lastBlink trace].
    rewrite led_level_app. unfold setup_events, dump_lines.
    cbn [app fold_left led_step]. auto.
  - apply Hblink.
Qed.

Lemma reachable_heartbeat s : reachable Simple.run s -> heartbeat_ok s.
Proof.
  induction 1 as [regs _ | s c _ IH].
  - unfold heartbeat_ok. cbn. split; [now left |]. split; [lia | reflexivity].
  - now apply run_heartbeat.
Qed.

(** Calls other than the amplitude setter and [setup] leave the control
    registers, the duty values and the resolution as they are. *)
Lemma run_no_duty_write c s :
  writes_duty c = false ->
  octrl (exec (Simple.run c) s) = octrl s
  /\ pwm_duty (exec (Simple.run c) s) = pwm_duty s
  /\ analog_write_res (exec (Simple.run c) s) = analog_write_res s.
Proof.
  destruct c as [frq | amp | | millis | | millis]; cbn [writes_duty Simple.run];
    intros Hc; try discriminate.
  - now rewrite setFreq_exec.
  - now rewrite showFlexPWMInit_exec.
  - destruct (blink_frame millis s) as (H1 & H2 & _ & H4). auto.
  - unfold Simple.loop. destruct (blink_frame millis s) as (H1 & H2 & _ & H4). auto.
Qed.

(** Iterations of [loop] leave the whole PWM configuration as it is. *)
Lemma loops_frame ts s :
  octrl (run_calls Simple.run (map CallLoop ts) s) = octrl s
  /\ analog_write_res (run_calls Simple.run (map CallLoop ts) s) = analog_write_res s
  /\ pwm_freq (run_calls Simple.run (map CallLoop ts) s) = pwm_freq s
  /\ pwm_duty (run_calls Simple.run (map CallLoop ts) s) = pwm_duty s.
Proof.
  revert s. induction ts as [| t ts IH]; intros s; cbn [map run_calls].
  - auto.
  - cbn [Simple.run]. unfold Simple.loop.
    destruct (IH (exec (Simple.blink t) s)) as (H1 & H2 & H3 & H4).
    destruct (blink_frame t s) as (B1 & B2 & B3 & B4).
    rewrite H1, H2, H3, H4. auto.
Qed.

(** What [setup] leaves behind, from any state. *)
Lemma setup_post s :
  analog_write_res (exec Simple.setup s) = Some Simple.PWMRES
  /\ tuned_to Simple.FREQUENCY (exec Simple.setup s)
  /\ driven_at (Simple.PWMSTEPS `quot` 2 - 1) (exec Simple.setup s)
  /\ inverted FLEXPWM4_SM2OCTRL (exec Simple.setup s)
  /\ inverted FLEXPWM2_SM2OCTRL (exec Simple.setup s)
  /\ (forall r, r <> FLEXPWM4_SM2OCTRL -> r <> FLEXPWM2_SM2OCTRL ->
              octrl (exec Simple.setup s) r = octrl s r).
Proof.
  rewrite setup_exec.
  unfold tuned_to, driven_at, inverted.
  cbn [analog_write_res pwm_freq pwm_duty octrl].
  change (Simple.PWMSTEPS `quot` 2 - 1) with 127.
  split; [reflexivity |].
  split; [repeat split; apply lookup_four_pins; auto |].
  split; [repeat split; apply lookup_four_pins; auto |].
  split; [rewrite fn_lookup_insert_ne, fn_lookup_insert by discriminate;
          apply or_INVERTB_inverted |].
  split; [rewrite fn_lookup_insert; apply or_INVERTB_inverted |].
  intros r H4 H2. now rewrite !fn_lookup_insert_ne by congruence.
Qed.

Lemma uint32_idem v : uint32 (uint32 v) = uint32 v.
Proof. unfold uint32. apply Z.mod_mod. lia. Qed.

Lemma uint16_idem v : uint16 (uint16 v) = uint16 v.
Proof. unfold uint16. apply Z.mod_mod. lia. Qed.

(** [blink], called [e] milliseconds after the last toggle. *)
Lemma blink_elapsed_early s e :
  0 <= e < Simple.blinkDuration ->
  exec (Simple.blink (uint32 (lastBlink s + e))) s = s.
Proof.
  intros He. apply blink_exec_early.
  rewrite elapsed_across_wrap by (unfold Simple.blinkDuration in He; lia).
  exact (proj2 He).
Qed.

Lemma blink_elapsed_due s e :
  Simple.blinkDuration <= e < 2 ^ 32 ->
  exec (Simple.blink (uint32 (lastBlink s + e))) s
  = mkState (octrl s) (analog_write_res s) (pwm_freq s) (pwm_duty s)
            (uint32 (lastBlink s + e)) (lnot (ledState s))
            (trace s ++ [EvDigitalWrite Simple.ledPin (lnot (ledState s))]).
Proof.
  intros He. rewrite blink_exec_due.
  - now rewrite uint32_idem.
  - rewrite elapsed_across_wrap by (unfold Simple.blinkDuration in He; lia).
    exact (proj1 He).
Qed.

(** A call leaves the control registers other than the two SM2 ones alone. *)
Lemma run_octrl_other c s r :
  r <> FLEXPWM4_SM2OCTRL -> r <> FLEXPWM2_SM2OCTRL ->
  octrl (exec (Simple.run c) s) r = octrl s r.
Proof.
  intros H4 H2.
  destruct (writes_duty c) eqn:Hc.
  - destruct c; try discriminate; cbn [Simple.run].
    + rewrite setAmp_exec. cbn [octrl].
      now rewrite !fn_lookup_insert_ne by congruence.
    + now apply setup_post.
  - now rewrite (proj1 (run_no_duty_write c s Hc)).
Qed.

Lemma run_calls_cons run c cs s :
  run_calls run (c :: cs) s = run_calls run cs (exec (run c) s).
Proof. reflexivity. Qed.

(** Writing the four pins again with the same value changes nothing. *)
Lemma four_pins_again {V} (m : gmap Z V) (v : V) :
  let write m := <[Simple.lowerB := v]>
                   (<[Simple.lowerA := v]>
                      (<[Simple.upperB := v]> (<[Simple.upperA := v]> m))) in
  write (write m) = write m.
Proof.
  cbv zeta. apply map_eq. intros pin.
  rewrite !lookup_insert. repeat case_decide; reflexivity.
Qed.

(** ** The properties *)

(** X1. [blink] toggles by elapsed time, across a wrap of the millisecond
    counter too: called [e] milliseconds after the last toggle (the counter
    then reads [lastBlink + e] modulo 2^32) it leaves the state as it is
    when [e] is below the interval, and otherwise inverts [ledState], writes
    it to the LED pin and records the counter reading in [lastBlink]. *)
Theorem blink_toggles_by_elapsed_time (k : sketch) (s : state) (e : Z) :
  0 <= e < 2 ^ 32 ->
  exec (run k (CallBlink (uint32 (lastBlink s + e)))) s
  = if e <? Simple.blinkDuration then s
    else mkState (octrl s) (analog_write_res s) (pwm_freq s) (pwm_duty s)
                 (uint32 (lastBlink s + e)) (lnot (ledState s))
                 (trace s ++ [EvDigitalWrite Simple.ledPin (lnot (ledState s))]).
Proof.
  intros He. rewrite run_eq. cbn [Simple.run].
  destruct (Z.ltb_spec e Simple.blinkDuration) as [Hlt | Hge].
  - apply blink_elapsed_early. lia.
  - apply blink_elapsed_due. lia.
Qed.

Lemma blink_toggles_by_elapsed_time_witness :
  let s := exec (run nyutinylev_simple (CallBlink 4294967196))
                (Simple.boot (fun _ => 0)) in
  0 <= 500 < 2 ^ 32
  /\ lastBlink s = 4294967196
  /\ uint32 (lastBlink s + 500) = 400
  /\ exec (run nyutinylev_simple (CallBlink (uint32 (lastBlink s + 500)))) s
     = if 500 <? Simple.blinkDuration then s
       else mkState (octrl s) (analog_write_res s) (pwm_freq s) (pwm_duty s)
                    (uint32 (lastBlink s + 500)) (lnot (ledState s))
                    (trace s ++ [EvDigitalWrite Simple.ledPin (lnot (ledState s))]).
Proof.
  cbv zeta. split; [lia |]. split; [reflexivity |]. split; [reflexivity |].
  apply (blink_toggles_by_elapsed_time nyutinylev_simple
           (exec (run nyutinylev_simple (CallBlink 4294967196))
                 (Simple.boot (fun _ => 0))) 500).
  lia.
Defined.

(** X2. In every state a sketch reaches from reset, [ledState] is [LOW] or
    [HIGH], [lastBlink] is a 32-bit value, and the level last written to
    the LED pin is [ledState] ([ledState] is [LOW] as long as the pin has
    not been written). *)
Theorem heartbeat_stays_well_formed (k : sketch) (s : state) :
  reachable (run k) s -> heartbeat_ok s.
Proof. intros Hs. apply reachable_heartbeat. now apply (reachable_run k). Qed.

Lemma heartbeat_stays_well_formed_witness :
  reachable (run part_000)
    (exec (run part_000 (CallBlink 600))
       (exec (run part_000 CallSetup) (Simple.boot (fun _ => 0))))
  /\ heartbeat_ok
       (exec (run part_000 (CallBlink 600))
          (exec (run part_000 CallSetup) (Simple.boot (fun _ => 0)))).
Proof.
  assert (regs16 (fun _ => 0)) as H0 by (intros r; lia).
  split; [apply reach_call, reach_call, reach_boot, H0 |].
  apply (heartbeat_stays_well_formed part_000).
  apply reach_call, reach_call, reach_boot, H0.
Defined.

(** X3. In a state reached from reset, two toggles of the heartbeat bring
    [ledState] back: a [blink] that is due inverts it, and the next one
    that is due restores it. *)
Theorem blink_twice_restores_ledState (k : sketch) (s : state) (e1 e2 : Z) :
  reachable (run k) s ->
  Simple.blinkDuration <= e1 < 2 ^ 32 ->
  Simple.blinkDuration <= e2 < 2 ^ 32 ->
  let s1 := exec (run k (CallBlink (uint32 (lastBlink s + e1)))) s in
  let s2 := exec (run k (CallBlink (uint32 (lastBlink s1 + e2)))) s1 in
  ledState s1 = lnot (ledState s)
  /\ ledState s1 <> ledState s
  /\ ledState s2 = ledState s.
Proof.
  intros Hs He1 He2. cbv zeta. rewrite !run_eq. cbn [Simple.run].
  apply (reachable_run k), reachable_heartbeat in Hs.
  destruct Hs as (Hled & _ & _).
  rewrite (blink_elapsed_due s e1 He1).
  rewrite blink_elapsed_due by assumption.
  cbn [ledState].
  split; [reflexivity |]. split; [apply lnot_flips |]. now apply lnot_lnot.
Qed.

Lemma blink_twice_restores_ledState_witness :
  let s := Simple.boot (fun _ => 0) in
  reachable (run nyutinylev_simple) s
  /\ Simple.blinkDuration <= 500 < 2 ^ 32
  /\ Simple.blinkDuration <= 700 < 2 ^ 32
  /\ let s1 := exec (run nyutinylev_simple
                       (CallBlink (uint32 (lastBlink s + 500)))) s in
     let s2 := exec (run nyutinylev_simple
                       (CallBlink (uint32 (lastBlink s1 + 700)))) s1 in
     ledState s1 = lnot (ledState s)
     /\ ledState s1 <> ledState s
     /\ ledState s2 = ledState s.
Proof.
  assert (regs16 (fun _ => 0)) as H0 by (intros r; lia).
  cbv zeta.
  split; [apply reach_boot, H0 |].
  split; [unfold Simple.blinkDuration; lia |].
  split; [unfold Simple.blinkDuration; lia |].
  apply (blink_twice_restores_ledState nyutinylev_simple
           (Simple.boot (fun _ => 0)) 500 700).
  - apply reach_boot, H0.
  - unfold Simple.blinkDuration; lia.
  - unfold Simple.blinkDuration; lia.
Defined.

(** X4. A sequence of calls that contains neither the amplitude setter nor
    [setup] (so: frequency setter, dump, [blink], [loop]) leaves the
    control registers, the duty values and the configured resolution as
    they were; in particular the frequency setter never sets the inversion
    bit. *)
Theorem calls_without_setAmp_keep_outputs
    (k : sketch) (cs : list call) (s : state) :
  forallb (fun c => negb (writes_duty c)) cs = true ->
  octrl (run_calls (run k) cs s) = octrl s
  /\ pwm_duty (run_calls (run k) cs s) = pwm_duty s
  /\ analog_write_res (run_calls (run k) cs s) = analog_write_res s.
Proof.
  rewrite run_calls_run. revert s.
  induction cs as [| c cs IH]; intros s Hcs; cbn [run_calls].
  - auto.
  - cbn [forallb] in Hcs. apply andb_true_iff in Hcs as [Hc Hcs].
    apply negb_true_iff in Hc.
    destruct (IH (exec (Simple.run c) s) Hcs) as (H1 & H2 & H3).
    destruct (run_no_duty_write c s Hc) as (F1 & F2 & F3).
    rewrite H1, H2, H3. auto.
Qed.

Lemma calls_without_setAmp_keep_outputs_witness :
  let cs := [CallSetFreq Simple.FREQUENCY; CallShow; CallBlink 600; CallLoop 1200] in
  let s := exec (run nyutinylev_simple (CallSetAmp 100)) (Simple.boot (fun _ => 0)) in
  forallb (fun c => negb (writes_duty c)) cs = true
  /\ octrl (run_calls (run nyutinylev_simple) cs s) = octrl s
  /\ pwm_duty (run_calls (run nyutinylev_simple) cs s) = pwm_duty s
  /\ analog_write_res (run_calls (run nyutinylev_simple) cs s) = analog_write_res s.
Proof.
  cbv zeta. split; [reflexivity |].
  apply (calls_without_setAmp_keep_outputs nyutinylev_simple
           [CallSetFreq Simple.FREQUENCY; CallShow; CallBlink 600; CallLoop 1200]
           (exec (run nyutinylev_simple (CallSetAmp 100)) (Simple.boot (fun _ => 0)))).
  reflexivity.
Defined.

(** X5. From any state, [setup] leaves the driver configured: the
    resolution is [PWMRES] bits, of which [PWMSTEPS] is the number of
    steps; all four channels carry [FREQUENCY] and the duty
    [PWMSTEPS/2 - 1], which lies within the configured range; the inversion
    bit is set in both SM2 control registers; and the heartbeat variables
    are untouched. *)
Theorem setup_configures_driver (k : sketch) (s : state) :
  Simple.PWMSTEPS = 2 ^ Simple.PWMRES
  /\ 0 <= Simple.PWMSTEPS `quot` 2 - 1 < Simple.PWMSTEPS
  /\ analog_write_res (exec (run k CallSetup) s) = Some Simple.PWMRES
  /\ tuned_to Simple.FREQUENCY (exec (run k CallSetup) s)
  /\ driven_at (Simple.PWMSTEPS `quot` 2 - 1) (exec (run k CallSetup) s)
  /\ inverted FLEXPWM4_SM2OCTRL (exec (run k CallSetup) s)
  /\ inverted FLEXPWM2_SM2OCTRL (exec (run k CallSetup) s)
  /\ lastBlink (exec (run k CallSetup) s) = lastBlink s
  /\ ledState (exec (run k CallSetup) s) = ledState s.
Proof.
  rewrite run_eq. cbn [Simple.run].
  destruct (setup_post s) as (H1 & H2 & H3 & H4 & H5 & _).
  split; [reflexivity |].
  split; [change (Simple.PWMSTEPS `quot` 2 - 1) with 127;
          unfold Simple.PWMSTEPS; lia |].
  repeat (split; [assumption |]).
  rewrite setup_exec. cbn [lastBlink ledState]. split; reflexivity.
Qed.


(** X7. Whatever calls a sketch makes, the only change a control register
    undergoes is that [INVERTB] is ORed into it: after any sequence of
    calls a register holds its old value or its old value with [INVERTB]
    set (truncated to 16 bits), and the six registers other than
    [FLEXPWM4_SM2OCTRL] and [FLEXPWM2_SM2OCTRL] hold their old value. *)
Theorem calls_only_set_INVERTB
    (k : sketch) (cs : list call) (s : state) (r : reg) :
  (octrl (run_calls (run k) cs s) r = octrl s r
   \/ octrl (run_calls (run k) cs s) r
      = uint16 (Z.lor (octrl s r) Simple.INVERTB))
  /\ (r <> FLEXPWM4_SM2OCTRL -> r <> FLEXPWM2_SM2OCTRL ->
      octrl (run_calls (run k) cs s) r = octrl s r).
Proof.
  rewrite run_calls_run. fold (or_INVERTB (octrl s r)). revert s.
  induction cs as [| c cs IH]; intros s; cbn [run_calls].
  - split; [now left | reflexivity].
  - destruct (IH (exec (Simple.run c) s)) as [Hor Hother]. split.
    + destruct Hor as [-> | ->]; destruct (run_octrl c s r) as [-> | ->];
        rewrite ?or_INVERTB_idem; auto.
    + intros H4 H2. rewrite Hother by assumption. now apply run_octrl_other.
Qed.

(** X8. Run as the Arduino runtime runs it ([setup] once, then [loop] any
    number of times, at any clock readings), from any state, a sketch ends
    with the driver as [setup] configured it: the resolution [PWMRES], all
    four channels at [FREQUENCY] and at duty [PWMSTEPS/2 - 1], the
    inversion bit set in both SM2 control registers, and the six other
    control registers as they were at the start. *)
Theorem sketch_run_stays_configured (k : sketch) (s : state) (ts : list Z) :
  analog_write_res (run_calls (run k) (sketch_calls ts) s) = Some Simple.PWMRES
  /\ tuned_to Simple.FREQUENCY (run_calls (run k) (sketch_calls ts) s)
  /\ driven_at (Simple.PWMSTEPS `quot` 2 - 1)
       (run_calls (run k) (sketch_calls ts) s)
  /\ inverted FLEXPWM4_SM2OCTRL (run_calls (run k) (sketch_calls ts) s)
  /\ inverted FLEXPWM2_SM2OCTRL (run_calls (run k) (sketch_calls ts) s)
  /\ (forall r : reg,
        r <> FLEXPWM4_SM2OCTRL -> r <> FLEXPWM2_SM2OCTRL ->
        octrl (run_calls (run k) (sketch_calls ts) s) r = octrl s r).
Proof.
  rewrite run_calls_run. unfold sketch_calls. rewrite run_calls_cons.
  change (Simple.run CallSetup) with Simple.setup.
  destruct (loops_frame ts (exec Simple.setup s)) as (L1 & L2 & L3 & L4).
  destruct (setup_post s) as (H1 & H2 & H3 & H4 & H5 & H6).
  unfold tuned_to, driven_at, inverted in *.
  rewrite L1, L2, L3, L4.
  repeat (split; [assumption |]).
  exact H6.
Qed.

(** X9. The amplitude setter takes its argument as a [uint16_t]: for every
    integer [amp] it writes and prints [amp] modulo 2^16, behaves as it
    does on that reduced value, and leaves the frequencies, the resolution
    and the heartbeat variables as they were. *)
Theorem setAmp_takes_low_16_bits (k : sketch) (s : state) (amp : Z) :
  exec (run k (CallSetAmp amp)) s = exec (run k (CallSetAmp (amp mod 2 ^ 16))) s
  /\ driven_at (amp mod 2 ^ 16) (exec (run k (CallSetAmp amp)) s)
  /\ printed (events_of (run k (CallSetAmp amp)) s) = [amp mod 2 ^ 16]
  /\ pwm_freq (exec (run k (CallSetAmp amp)) s) = pwm_freq s
  /\ analog_write_res (exec (run k (CallSetAmp amp)) s) = analog_write_res s
  /\ lastBlink (exec (run k (CallSetAmp amp)) s) = lastBlink s
  /\ ledState (exec (run k (CallSetAmp amp)) s) = ledState s.
Proof.
  rewrite !run_eq. cbn [Simple.run]. fold (uint16 amp).
  split; [now rewrite !setAmp_exec, uint16_idem |].
  split; [apply setAmp_driven |].
  split; [now rewrite setAmp_events |].
  rewrite setAmp_exec. cbn [pwm_freq analog_write_res lastBlink ledState].
  repeat split.
Qed.

(** X10. The frequency setter and the amplitude setter do not disturb each
    other: called in either order they leave the same control registers,
    frequencies, duty values and resolution, with all four channels at the
    frequency and at the duty given. *)
Theorem setFreq_setAmp_either_order
    (k : sketch) (s : state) (f : float) (a : Z) :
  let s1 := exec (run k (CallSetAmp a)) (exec (run k (CallSetFreq f)) s) in
  let s2 := exec (run k (CallSetFreq f)) (exec (run k (CallSetAmp a)) s) in
  octrl s1 = octrl s2
  /\ pwm_freq s1 = pwm_freq s2
  /\ pwm_duty s1 = pwm_duty s2
  /\ analog_write_res s1 = analog_write_res s2
  /\ tuned_to f s1 /\ driven_at (uint16 a) s1
  /\ tuned_to f s2 /\ driven_at (uint16 a) s2.
Proof.
  cbv zeta. rewrite !run_eq. cbn [Simple.run].
  pose proof (setAmp_driven a (exec (Simple.setFreq f) s)) as Hd1.
  pose proof (setFreq_tuned f (exec (Simple.setAmp a) s)) as Ht2.
  pose proof (setFreq_tuned f s) as Ht1.
  pose proof (setAmp_driven a s) as Hd2.
  unfold tuned_to, driven_at in *.
  rewrite !setAmp_exec, !setFreq_exec in *.
  cbn [octrl pwm_freq pwm_duty analog_write_res] in *.
  repeat (split; [reflexivity || assumption |]). assumption.
Qed.

(** X11. Running [setup] again changes no setting: after a second [setup]
    every control register, the frequencies, the duty values and the
    resolution are as the first [setup] left them. *)
Theorem setup_twice_same_settings (k : sketch) (s : state) (r : reg) :
  let s1 := exec (run k CallSetup) s in
  let s2 := exec (run k CallSetup) s1 in
  octrl s2 r = octrl s1 r
  /\ pwm_freq s2 = pwm_freq s1
  /\ pwm_duty s2 = pwm_duty s1
  /\ analog_write_res s2 = analog_write_res s1.
Proof.
  cbv zeta. rewrite !run_eq. cbn [Simple.run].
  rewrite !setup_exec. cbn [octrl pwm_freq pwm_duty analog_write_res].
  split; [| split; [| split]].
  - rewrite fn_lookup_insert.
    rewrite (fn_lookup_insert_ne _ FLEXPWM2_SM2OCTRL FLEXPWM4_SM2OCTRL)
      by discriminate.
    rewrite fn_lookup_insert, !or_INVERTB_idem.
    destruct r; reflexivity.
  - apply (four_pins_again (pwm_freq s) Simple.FREQUENCY).
  - apply (four_pins_again (pwm_duty s) 127).
  - reflexivity.
Qed.
